(** * Blink loop of the SC8P052 programmer test firmware ([src/main.c])

    The firmware is a single translation unit: six configuration pragmas, the
    macro [_XTAL_FREQ], and a [main] that stores to the direction register of
    port B once and then toggles bit 0 of the port B output register forever,
    holding each level with the [_delay] primitive.

    [main] is embedded as an interaction tree over the device's events
    (register stores, register loads, busy-wait delays).  The tree is run by
    a small-step machine that interprets stores and loads over a register
    file and records every event in a log. *)

From Stdlib Require Import ZArith List Lia Bool.
From ITree Require Import ITree.
Import ListNotations ITreeNotations.
Local Open Scope Z_scope.
Local Open Scope itree_scope.

(** ** Configuration words ([#pragma config], lines 6-11) *)

Module Config.

(** The settings named by the pragmas. *)
Inductive setting : Type := FOSC | WDTE | PWRTE | MCLRE | CP | BOREN.

(** The values the pragmas give them. *)
Inductive value : Type := INTRC_NOCLKOUT | ON | OFF.

Definition setting_eqb (a b : setting) : bool :=
  match a, b with
  | FOSC, FOSC | WDTE, WDTE | PWRTE, PWRTE
  | MCLRE, MCLRE | CP, CP | BOREN, BOREN => true
  | _, _ => false
  end.

(** The pragmas, in source order, one pair per line. *)
Definition pragmas : list (setting * value) :=
  [ (FOSC, INTRC_NOCLKOUT);
    (WDTE, OFF);
    (PWRTE, ON);
    (MCLRE, ON);
    (CP, OFF);
    (BOREN, OFF) ].

(** The value a setting is given: that of the first pragma naming it. *)
Fixpoint lookup (s : setting) (l : list (setting * value)) : option value :=
  match l with
  | [] => None
  | (s', v) :: l' => if setting_eqb s s' then Some v else lookup s l'
  end.

Definition configured (s : setting) : option value := lookup s pragmas.

(** Reading of the symbolic values. *)
Inductive oscillator : Type :=
| InternalRC (clock_out : bool).

Definition oscillator_source : option oscillator :=
  match configured FOSC with
  | Some INTRC_NOCLKOUT => Some (InternalRC false)
  | _ => None
  end.

(** A feature switch is enabled by [ON] and disabled by [OFF]. *)
Definition enabled (s : setting) : option bool :=
  match configured s with
  | Some ON => Some true
  | Some OFF => Some false
  | _ => None
  end.

End Config.

(** ** The device: special-function registers and events *)

(** [main] names two registers of the device header, [TRISB] and [PORTB];
    every other register of the register file is [SFR addr]. *)
Inductive sfr : Type :=
| TRISB
| PORTB
| SFR (addr : Z).

Definition sfr_eqb (a b : sfr) : bool :=
  match a, b with
  | TRISB, TRISB => true
  | PORTB, PORTB => true
  | SFR x, SFR y => Z.eqb x y
  | _, _ => false
  end.

(** The register file: the byte each register holds. *)
Definition regfile : Type := sfr -> Z.

(** Registers are 8 bits wide: a store keeps the low byte of the value. *)
Definition byte_of (v : Z) : Z := v mod 2 ^ 8.

Definition store (r : sfr) (v : Z) (h : regfile) : regfile :=
  fun r' => if sfr_eqb r r' then byte_of v else h r'.

(** What a program can ask of the device. *)
Variant hwE : Type -> Type :=
| Store (r : sfr) (v : Z) : hwE unit   (* [r = v;] on a volatile register *)
| Load (r : sfr) : hwE Z               (* a read of a volatile register *)
| Delay (n : Z) : hwE unit.            (* the [_delay(n)] primitive *)

(** What the log records of each request. *)
Variant event : Type :=
| EvStore (r : sfr) (v : Z)
| EvLoad (r : sfr) (v : Z)
| EvDelay (n : Z).

(** ** The program *)

(** [#define _XTAL_FREQ 8000000] *)
Definition _XTAL_FREQ : Z := 8000000.

Definition assign (r : sfr) (v : Z) : itree hwE unit := ITree.trigger (Store r v).
Definition _delay (n : Z) : itree hwE unit := ITree.trigger (Delay n).

(** The body of [while(1)], lines 19-22. *)
Definition loop_body : itree hwE unit :=
  assign PORTB 0x01 ;;
  _delay 100000 ;;
  assign PORTB 0x00 ;;
  _delay 100000.

(** [main] as the preprocessor leaves it when [_XTAL_FREQ] is defined as
    [xtal_freq]: no token of the body expands the macro. *)
Definition main_of (xtal_freq : Z) : itree hwE unit :=
  assign TRISB 0x00 ;;
  ITree.forever loop_body.

(** [void main(void)], compiled with the macro as line 1 defines it. *)
Definition main : itree hwE unit := main_of _XTAL_FREQ.

(** ** The machine *)

(** The device's answer to a request: the result, the register file
    afterwards, and the log entry. *)
Definition handle {X : Type} (e : hwE X) (h : regfile) : X * regfile * event :=
  match e with
  | Store r v => (tt, store r v h, EvStore r (byte_of v))
  | Load r => (h r, h, EvLoad r (h r))
  | Delay n => (tt, h, EvDelay n)
  end.

(** A machine state: the next node of the program, the register file, and
    the log of events so far, oldest first. *)
Record machine : Type := Machine {
  node : itree' hwE unit;
  regs : regfile;
  log : list event
}.

(** One step.  [None] means the program has returned. *)
Definition step (m : machine) : option machine :=
  let 'Machine nd h l := m in
  match nd with
  | RetF _ => None
  | TauF t => Some (Machine (observe t) h l)
  | VisF e k =>
      let '(x, h', ev) := handle e h in
      Some (Machine (observe (k x)) h' (l ++ [ev]))
  end.

Fixpoint steps (n : nat) (m : machine) : option machine :=
  match n with
  | O => Some m
  | S n' =>
      match step m with
      | Some m' => steps n' m'
      | None => None
      end
  end.

(** Power-up: [t] is about to run on a device whose registers hold [h]. *)
Definition boot (t : itree hwE unit) (h : regfile) : machine :=
  Machine (observe t) h [].

(** The top of the [while(1)] loop. *)
Definition loop_top (h : regfile) (l : list event) : machine :=
  Machine (observe (ITree.forever loop_body : itree hwE unit)) h l.

(** The events and the register file of one pass through the loop body. *)
Definition pass_events : list event :=
  [EvStore PORTB 1; EvDelay 100000; EvStore PORTB 0; EvDelay 100000].

Definition pass_regs (h : regfile) : regfile :=
  store PORTB 0x00 (store PORTB 0x01 h).

Fixpoint passes_events (k : nat) : list event :=
  match k with
  | O => []
  | S k' => pass_events ++ passes_events k'
  end.

Fixpoint passes_regs (k : nat) (h : regfile) : regfile :=
  match k with
  | O => h
  | S k' => passes_regs k' (pass_regs h)
  end.

(** The program run from power-up on registers [h]. *)
Definition run (n : nat) (h : regfile) : option machine :=
  steps n (boot main h).

(** The machine after [k] whole passes through the loop body. *)
Definition after_passes (k : nat) (h : regfile) : option machine :=
  run (1 + 5 * k) h.

(** The events of pass number [k] (counted from 0): what the log gains
    between the end of pass [k - 1] and the end of pass [k]. *)
Definition pass_log (k : nat) (h : regfile) : option (list event) :=
  match after_passes k h, after_passes (S k) h with
  | Some m, Some m' => Some (skipn (length (log m)) (log m'))
  | _, _ => None
  end.

(** The machine [r] steps into a pass, for [r < 5]: the events and the
    register file it has got to. *)
Definition partial_regs (r : nat) (h : regfile) : regfile :=
  match r with
  | 0%nat => h
  | 1%nat | 2%nat => store PORTB 0x01 h
  | _ => pass_regs h
  end.

(** ** Reading the log *)

(** The values stored to register [r], oldest first. *)
Fixpoint stores_to (r : sfr) (l : list event) : list Z :=
  match l with
  | [] => []
  | EvStore r' v :: l' =>
      if sfr_eqb r r' then v :: stores_to r l' else stores_to r l'
  | _ :: l' => stores_to r l'
  end.

(** The counts passed to [_delay], oldest first. *)
Fixpoint delays (l : list event) : list Z :=
  match l with
  | [] => []
  | EvDelay n :: l' => n :: delays l'
  | _ :: l' => delays l'
  end.

(** The monitored pin is RB0, bit 0 of [PORTB]. *)
Definition RB0 : Z := 0.

Inductive level : Type := HIGH | LOW.

Definition pin_level (v : Z) : level :=
  if Z.testbit v RB0 then HIGH else LOW.

(** The levels driven on RB0, one per store to [PORTB]. *)
Definition pin_sequence (l : list event) : list level :=
  map pin_level (stores_to PORTB l).

Definition toggle (v : level) : level :=
  match v with
  | HIGH => LOW
  | LOW => HIGH
  end.

(** The strictly alternating sequence of [n] levels that starts at [first]. *)
Fixpoint square_wave (n : nat) (first : level) : list level :=
  match n with
  | O => []
  | S n' => first :: square_wave n' (toggle first)
  end.

(** Each store to [PORTB] that a [_delay] follows at once, as the level it
    drives on RB0 and the count it is held for. *)
Fixpoint holds (l : list event) : list (level * Z) :=
  match l with
  | [] => []
  | EvStore r v :: l' =>
      match l' with
      | EvDelay n :: _ =>
          if sfr_eqb r PORTB then (pin_level v, n) :: holds l' else holds l'
      | _ => holds l'
      end
  | _ :: l' => holds l'
  end.

(** Exactly bit [b] of [v] is set; no bit of [v] is set. *)
Definition only_bit (b v : Z) : Prop := forall i, Z.testbit v i = (i =? b).
Definition no_bit (v : Z) : Prop := forall i, Z.testbit v i = false.

(** The pins of port B. *)
Definition pins : list Z := [0; 1; 2; 3; 4; 5; 6; 7].

(** The direction convention [main] relies on (line 15 stores [0x00] "to set
    all PORTB as output"): a cleared direction bit makes the pin an output, a
    set one an input. *)
Definition is_output (tris pin : Z) : bool := negb (Z.testbit tris pin).
Definition is_input (tris pin : Z) : bool := Z.testbit tris pin.

(** The direction convention as the specification words it: bit value 1
    means output. *)
Definition spec_is_output (tris pin : Z) : bool := Z.testbit tris pin.

(** Events that are stores to [TRISB] or [PORTB], or delays: no load, no
    store elsewhere. *)
Definition port_B_only (ev : event) : bool :=
  match ev with
  | EvStore TRISB _ | EvStore PORTB _ => true
  | EvStore (SFR _) _ => false
  | EvLoad _ _ => false
  | EvDelay _ => true
  end.

(** A device whose registers all read 0, and one whose registers all read
    [0xAA]. *)
Definition cleared : regfile := fun _ => 0.
Definition floating : regfile := fun _ => 0xAA.

(** The counts passed to [_delay] in the first [n] steps of [main] compiled
    with [_XTAL_FREQ] defined as [f]. *)
Definition delay_counts (f : Z) (n : nat) (h : regfile) : option (list Z) :=
  match steps n (boot (main_of f) h) with
  | Some m => Some (delays (log m))
  | None => None
  end.

(** The time the pin spends at level [v], under a timing model
    [delay_cycles] of the primitive (the cycles [_delay(n)] takes): the sum
    over the holds at that level. *)
Section Timing.

Variable delay_cycles : Z -> Z.

Definition level_eqb (a b : level) : bool :=
  match a, b with
  | HIGH, HIGH | LOW, LOW => true
  | _, _ => false
  end.

Fixpoint time_at (v : level) (hs : list (level * Z)) : Z :=
  match hs with
  | [] => 0
  | (v', n) :: hs' =>
      (if level_eqb v v' then delay_cycles n else 0) + time_at v hs'
  end.

End Timing.

(** Whether the machine [n] steps into the loop ([n] counted from the top
    of the first pass) stands between the store of [0x01] and the store of
    [0x00] of the pass it is in: a pass is five steps, and the two stores are
    its first and its third. *)
Definition high_hold (n : nat) : bool :=
  match (n mod 5)%nat with
  | 1%nat | 2%nat => true
  | _ => false
  end.

(** The holds of one pass through the loop body, and of [k] passes. *)
Definition pass_holds : list (level * Z) := [(HIGH, 100000); (LOW, 100000)].

Definition passes_holds (k : nat) : list (level * Z) :=
  concat (repeat pass_holds k).

(** Case analysis on how far into a pass the machine is. *)
Ltac pass_position r :=
  let r' := fresh "r" in
  destruct r as [|[|[|[|[|r']]]]]; [ | | | | | exfalso; lia ].

(** ** Running the machine *)

Lemma steps_add (a b : nat) (m : machine) :
  steps (a + b) m =
  match steps a m with
  | Some m' => steps b m'
  | None => None
  end.
Proof.
  revert m; induction a as [|a IH]; intros m; simpl.
  - reflexivity.
  - destruct (step m) as [m'|]; [apply IH | reflexivity].
Qed.

(** The first step of [main] is the store to [TRISB]; it leaves the machine
    at the top of the loop. *)
Lemma step_boot (f : Z) (h : regfile) :
  step (boot (main_of f) h) = Some (loop_top (store TRISB 0x00 h) [EvStore TRISB 0]).
Proof. reflexivity. Qed.

(** Five steps (four events and the silent step that closes the pass) lead
    from the top of the loop back to it. *)
Lemma steps_pass (h : regfile) (l : list event) :
  steps 5 (loop_top h l) = Some (loop_top (pass_regs h) (l ++ pass_events)).
Proof.
  unfold pass_events.
  change (l ++ [EvStore PORTB 1; EvDelay 100000; EvStore PORTB 0; EvDelay 100000])
    with (l ++ [EvStore PORTB 1] ++ [EvDelay 100000] ++ [EvStore PORTB 0] ++ [EvDelay 100000]).
  rewrite !app_assoc.
  reflexivity.
Qed.

(** [k] passes take [5 * k] steps. *)
Lemma steps_passes (k : nat) (h : regfile) (l : list event) :
  steps (5 * k) (loop_top h l) =
  Some (loop_top (passes_regs k h) (l ++ passes_events k)).
Proof.
  revert h l; induction k as [|k IH]; intros h l.
  - simpl. now rewrite app_nil_r.
  - replace (5 * S k)%nat with (5 + 5 * k)%nat by lia.
    rewrite steps_add, steps_pass, IH. cbn [passes_regs passes_events].
    now rewrite app_assoc.
Qed.

Lemma steps_partial (r : nat) (h : regfile) (l : list event) :
  (r < 5)%nat ->
  exists nd,
    steps r (loop_top h l) =
    Some (Machine nd (partial_regs r h) (l ++ firstn r pass_events))
    /\ step (Machine nd (partial_regs r h) (l ++ firstn r pass_events)) <> None.
Proof.
  intros Hr.
  assert (Hl : forall a b c d : event,
             l ++ [a; b; c; d] = (((l ++ [a]) ++ [b]) ++ [c]) ++ [d])
    by (intros; now rewrite <- !app_assoc).
  assert (Hl3 : forall a b c : event, l ++ [a; b; c] = ((l ++ [a]) ++ [b]) ++ [c])
    by (intros; now rewrite <- !app_assoc).
  assert (Hl2 : forall a b : event, l ++ [a; b] = (l ++ [a]) ++ [b])
    by (intros; now rewrite <- !app_assoc).
  destruct r as [|[|[|[|[|r]]]]]; try lia; clear Hr; simpl firstn; eexists.
  - rewrite app_nil_r. split; [reflexivity | discriminate].
  - split; [reflexivity | discriminate].
  - rewrite Hl2. split; [reflexivity | discriminate].
  - rewrite Hl3. split; [reflexivity | discriminate].
  - rewrite Hl. split; [reflexivity | discriminate].
Qed.

(** Every run of at least one step has the same shape: the store to
    [TRISB], then whole passes, then the beginning of one more pass; and the
    machine it reaches can step again. *)
Lemma run_shape (n : nat) (h : regfile) :
  exists nd,
    run (S n) h =
    Some (Machine nd
            (partial_regs (n mod 5) (passes_regs (n / 5) (store TRISB 0x00 h)))
            (EvStore TRISB 0 :: passes_events (n / 5) ++ firstn (n mod 5) pass_events))
    /\ step (Machine nd
            (partial_regs (n mod 5) (passes_regs (n / 5) (store TRISB 0x00 h)))
            (EvStore TRISB 0 :: passes_events (n / 5) ++ firstn (n mod 5) pass_events))
       <> None.
Proof.
  unfold run. cbn [steps]. unfold main. rewrite step_boot.
  assert (Hr : (n mod 5 < 5)%nat) by (apply Nat.mod_upper_bound; discriminate).
  assert (Hn : n = (5 * (n / 5) + n mod 5)%nat) by apply Nat.div_mod_eq.
  set (q := (n / 5)%nat) in *. set (r := (n mod 5)%nat) in *.
  clearbody q r. subst n.
  rewrite steps_add, steps_passes.
  destruct (steps_partial r (passes_regs q (store TRISB 0x00 h))
              ([EvStore TRISB 0] ++ passes_events q) Hr)
    as (nd & Hs & Hn).
  exists nd. rewrite <- app_assoc in Hs, Hn. split; [exact Hs | exact Hn].
Qed.

Lemma after_passes_eq (k : nat) (h : regfile) :
  after_passes k h =
  Some (loop_top (passes_regs k (store TRISB 0x00 h))
          (EvStore TRISB 0 :: passes_events k)).
Proof.
  unfold after_passes, run. cbn [Nat.add steps]. unfold main.
  rewrite step_boot, steps_passes. reflexivity.
Qed.

Lemma passes_events_add (a b : nat) :
  passes_events (a + b) = passes_events a ++ passes_events b.
Proof.
  induction a as [|a IH]; [reflexivity|].
  cbn [Nat.add passes_events]. now rewrite IH, app_assoc.
Qed.

Lemma passes_events_snoc (k : nat) :
  passes_events (S k) = passes_events k ++ pass_events.
Proof.
  replace (S k) with (k + 1)%nat by lia.
  rewrite passes_events_add. cbn [passes_events]. now rewrite app_nil_r.
Qed.

Lemma pass_log_eq (k : nat) (h : regfile) : pass_log k h = Some pass_events.
Proof.
  unfold pass_log. rewrite !after_passes_eq. cbn [log loop_top].
  rewrite passes_events_snoc.
  change (EvStore TRISB 0 :: passes_events k ++ pass_events)
    with ((EvStore TRISB 0 :: passes_events k) ++ pass_events).
  rewrite skipn_app, skipn_all, Nat.sub_diag. reflexivity.
Qed.

(** ** Facts about logs and register files of whole passes *)

Lemma stores_to_app (r : sfr) (l1 l2 : list event) :
  stores_to r (l1 ++ l2) = stores_to r l1 ++ stores_to r l2.
Proof.
  induction l1 as [|[r' v|r' v|n] l1 IH]; simpl; try assumption.
  - reflexivity.
  - destruct (sfr_eqb r r'); simpl; now rewrite IH.
Qed.

Lemma delays_app (l1 l2 : list event) :
  delays (l1 ++ l2) = delays l1 ++ delays l2.
Proof.
  induction l1 as [|[r' v|r' v|n] l1 IH]; simpl; try assumption.
  - reflexivity.
  - now rewrite IH.
Qed.

Lemma stores_to_TRISB_passes (k : nat) : stores_to TRISB (passes_events k) = [].
Proof.
  induction k as [|k IH]; [reflexivity|].
  cbn [passes_events]. rewrite stores_to_app, IH. reflexivity.
Qed.

Lemma passes_regs_PORTB (k : nat) (h : regfile) :
  passes_regs (S k) h PORTB = 0.
Proof.
  revert h; induction k as [|k IH]; intros h.
  - reflexivity.
  - change (passes_regs (S (S k)) h) with (passes_regs (S k) (pass_regs h)).
    apply IH.
Qed.

Lemma passes_regs_frame (k : nat) (h : regfile) (r : sfr) :
  sfr_eqb PORTB r = false -> passes_regs k h r = h r.
Proof.
  intros Hr. revert h; induction k as [|k IH]; intros h.
  - reflexivity.
  - cbn [passes_regs]. rewrite IH. unfold pass_regs, store. now rewrite Hr.
Qed.

Lemma partial_regs_frame (j : nat) (h : regfile) (r : sfr) :
  sfr_eqb PORTB r = false -> partial_regs j h r = h r.
Proof.
  intros Hr.
  destruct j as [|[|[|j]]]; cbn [partial_regs]; unfold pass_regs, store;
    now rewrite ?Hr.
Qed.

Lemma pin_sequence_passes (k : nat) (rest : list event) :
  pin_sequence (passes_events k ++ rest) =
  square_wave (2 * k) HIGH ++ pin_sequence rest.
Proof.
  induction k as [|k IH]; [reflexivity|].
  replace (2 * S k)%nat with (S (S (2 * k))) by lia.
  cbn [passes_events]. rewrite <- app_assoc.
  unfold pin_sequence in *. rewrite stores_to_app, map_app, IH. reflexivity.
Qed.

Lemma square_wave_even_app (k j : nat) :
  square_wave (2 * k) HIGH ++ square_wave j HIGH = square_wave (2 * k + j) HIGH.
Proof.
  induction k as [|k IH]; [reflexivity|].
  replace (2 * S k)%nat with (S (S (2 * k))) by lia.
  cbn [Nat.add square_wave toggle app]. now rewrite IH.
Qed.

Lemma length_passes_events (k : nat) : length (passes_events k) = (4 * k)%nat.
Proof.
  induction k as [|k IH]; [reflexivity|].
  cbn [passes_events]. rewrite length_app, IH. cbn [pass_events length]. lia.
Qed.

Lemma delays_passes (k : nat) : Forall (fun d => d = 100000) (delays (passes_events k)).
Proof.
  induction k as [|k IH]; [constructor|].
  cbn [passes_events]. rewrite delays_app. apply Forall_app. split; [|exact IH].
  repeat constructor.
Qed.

Lemma stores_to_PORTB_passes (k : nat) :
  Forall (fun v => v = 0x00 \/ v = 0x01) (stores_to PORTB (passes_events k)).
Proof.
  induction k as [|k IH]; [constructor|].
  cbn [passes_events]. rewrite stores_to_app. apply Forall_app. split; [|exact IH].
  cbn. constructor; [right; reflexivity|]. constructor; [left; reflexivity|].
  constructor.
Qed.

Lemma port_B_only_passes (k : nat) : forallb port_B_only (passes_events k) = true.
Proof.
  induction k as [|k IH]; [reflexivity|].
  cbn [passes_events]. rewrite forallb_app, IH. reflexivity.
Qed.

(** The shape of a run, with the quotient and remainder named. *)
Lemma run_cases (n : nat) (h : regfile) :
  exists (q r : nat) (nd : itree' hwE unit),
    (r < 5)%nat
    /\ run (S n) h =
       Some (Machine nd
               (partial_regs r (passes_regs q (store TRISB 0x00 h)))
               (EvStore TRISB 0 :: passes_events q ++ firstn r pass_events))
    /\ step (Machine nd
               (partial_regs r (passes_regs q (store TRISB 0x00 h)))
               (EvStore TRISB 0 :: passes_events q ++ firstn r pass_events))
       <> None.
Proof.
  destruct (run_shape n h) as (nd & Hrun & Hstep).
  exists (n / 5)%nat, (n mod 5)%nat, nd. split; [|split; assumption].
  apply Nat.mod_upper_bound. discriminate.
Qed.

(** The first six steps on a device whose registers all read [0xAA]: the
    store to [TRISB], one pass through the loop body, and the silent step
    back to the top of the loop. *)
Example first_pass :
  exists m,
    run 6 floating = Some m
    /\ log m = [EvStore TRISB 0x00; EvStore PORTB 0x01; EvDelay 100000;
                EvStore PORTB 0x00; EvDelay 100000]
    /\ regs m TRISB = 0x00
    /\ regs m PORTB = 0x00
    /\ regs m (SFR 5) = 0xAA.
Proof. eexists. repeat split. Qed.

(** A store keeps the low byte only. *)
Example store_wraps : store PORTB 0x101 cleared PORTB = 0x01.
Proof. reflexivity. Qed.

(** ** The claims *)

(** C7.  After the store to the direction register the program is in a loop
    it cannot leave: whatever the number of steps already taken and whatever
    the registers held at power-up, the machine has not returned and can take
    one more step.  The loop is not silent either: after [k] passes the log
    holds [1 + 4 * k] events. *)
Theorem main_never_returns :
  (forall (n : nat) (h : regfile),
      exists m m', run n h = Some m /\ step m = Some m')
  /\ (forall (k : nat) (h : regfile),
         exists m, after_passes k h = Some m
                   /\ length (log m) = (1 + 4 * k)%nat).
Proof.
  assert (Hgo : forall (n : nat) (h : regfile),
             exists m m', run n h = Some m /\ step m = Some m').
  { intros [|n] h.
    - exists (boot main h). eexists. split; [reflexivity|].
      unfold main. apply step_boot.
    - destruct (run_shape n h) as (nd & Hrun & Hstep).
      rewrite Hrun. eexists.
      match type of Hstep with
      | step ?M <> None => destruct (step M) as [m'|] eqn:E
      end.
      + exists m'. split; [reflexivity | exact E].
      + contradiction. }
  split; [exact Hgo|].
  intros k h. rewrite after_passes_eq. eexists. split; [reflexivity|].
  cbn [log loop_top length]. now rewrite length_passes_events.
Qed.

(** C2.  In every pass through the loop body there are exactly two stores
    to the output register [PORTB]: the first stores [0x01], the value in
    which bit 0 and no other bit is set, and the second stores [0x00], the
    value in which no bit is set. *)
Theorem pass_stores_high_then_low :
  forall (k : nat) (h : regfile),
    exists (l : list event) (first second : Z),
      pass_log k h = Some l
      /\ stores_to PORTB l = [first; second]
      /\ first = 0x01 /\ only_bit RB0 first
      /\ second = 0x00 /\ no_bit second.
Proof.
  intros k h. exists pass_events, 0x01, 0x00.
  split; [apply pass_log_eq|].
  split; [reflexivity|].
  split; [reflexivity|]. split.
  - intros i. unfold RB0.
    destruct (Z.eqb_spec i 0) as [->|Hi]; [reflexivity|].
    destruct i as [|p|p]; try congruence; [|reflexivity].
    now destruct p.
  - split; [reflexivity|]. intros i. apply Z.testbit_0_l.
Qed.

(** C5.  The direction register [TRISB] is stored to exactly once: the store
    is the first event of every run, the rest of the log (the whole loop)
    holds no store to [TRISB], and from that step on [TRISB] holds the value
    stored, whatever the number of steps. *)
Theorem direction_written_once :
  forall (n : nat) (h : regfile),
    exists (m : machine) (rest : list event),
      run (S n) h = Some m
      /\ log m = EvStore TRISB 0x00 :: rest
      /\ stores_to TRISB rest = []
      /\ stores_to TRISB (log m) = [0x00]
      /\ regs m TRISB = 0x00.
Proof.
  intros n h. destruct (run_cases n h) as (q & r & nd & Hr & Hrun & _).
  rewrite Hrun. eexists. eexists. split; [reflexivity|]. cbn [log regs].
  split; [reflexivity|].
  assert (Hrest : stores_to TRISB (passes_events q ++ firstn r pass_events) = []).
  { rewrite stores_to_app, stores_to_TRISB_passes.
    pass_position r; reflexivity. }
  split; [exact Hrest|]. split.
  - cbn [stores_to sfr_eqb]. now rewrite Hrest.
  - rewrite partial_regs_frame, passes_regs_frame by reflexivity. reflexivity.
Qed.

(** C1 as worded fails on the code: one pass through the loop body stores
    to [PORTB] twice, so four passes drive eight levels on RB0, not four. *)
Lemma four_passes_drive_eight_levels :
  exists m,
    after_passes 4 cleared = Some m
    /\ pin_sequence (log m) = [HIGH; LOW; HIGH; LOW; HIGH; LOW; HIGH; LOW]
    /\ pin_sequence (log m) <> [HIGH; LOW; HIGH; LOW].
Proof.
  eexists. split; [reflexivity|]. split; [reflexivity | discriminate].
Qed.

(** C1, amended.  At every point of every run the levels driven on RB0 form
    a strictly alternating sequence that starts HIGH: no two consecutive
    stores to the output register leave the bit unchanged.  Each pass
    through the loop body drives two levels, HIGH then LOW, so [k] passes
    drive [2 * k] levels; in particular two passes drive HIGH, LOW, HIGH,
    LOW and four passes drive that sequence twice over. *)
Theorem pin_strictly_alternates :
  (forall (n : nat) (h : regfile),
      exists m, run n h = Some m
                /\ pin_sequence (log m)
                   = square_wave (length (pin_sequence (log m))) HIGH)
  /\ (forall (k : nat) (h : regfile),
         exists m, after_passes k h = Some m
                   /\ pin_sequence (log m) = square_wave (2 * k) HIGH)
  /\ (forall h : regfile,
         exists m, after_passes 2 h = Some m
                   /\ pin_sequence (log m) = [HIGH; LOW; HIGH; LOW])
  /\ (forall h : regfile,
         exists m, after_passes 4 h = Some m
                   /\ pin_sequence (log m)
                      = [HIGH; LOW; HIGH; LOW; HIGH; LOW; HIGH; LOW]).
Proof.
  assert (Hk : forall (k : nat) (h : regfile),
             exists m, after_passes k h = Some m
                       /\ pin_sequence (log m) = square_wave (2 * k) HIGH).
  { intros k h. rewrite after_passes_eq. eexists. split; [reflexivity|].
    cbn [log loop_top].
    change (pin_sequence (EvStore TRISB 0 :: passes_events k))
      with (pin_sequence (passes_events k)).
    rewrite <- (app_nil_r (passes_events k)), pin_sequence_passes.
    now rewrite app_nil_r. }
  split; [|split; [exact Hk | split; intros h; [apply (Hk 2%nat) | apply (Hk 4%nat)]]].
  intros [|n] h.
  - eexists. split; reflexivity.
  - destruct (run_cases n h) as (q & r & nd & Hr & Hrun & _).
    rewrite Hrun. eexists. split; [reflexivity|]. cbn [log].
    change (pin_sequence (EvStore TRISB 0 :: passes_events q ++ firstn r pass_events))
      with (pin_sequence (passes_events q ++ firstn r pass_events)).
    rewrite pin_sequence_passes, length_app.
    assert (Hq : length (square_wave (2 * q) HIGH) = (2 * q)%nat).
    { clear. generalize HIGH. induction (2 * q)%nat as [|j IH]; intros v;
        [reflexivity | cbn [square_wave length]; now rewrite IH]. }
    rewrite Hq, <- square_wave_even_app. f_equal.
    pass_position r; reflexivity.
Qed.

(** C3 as worded fails on the code: the value stored to the direction
    register is not the all-ones byte, and under the reading "1 means
    output" it would mark no pin of port B as an output. *)
Lemma direction_value_not_all_ones :
  exists m,
    run 1 floating = Some m
    /\ log m = [EvStore TRISB 0x00]
    /\ regs m TRISB <> 0xFF
    /\ existsb (spec_is_output (regs m TRISB)) pins = false.
Proof.
  eexists. split; [reflexivity|]. split; [reflexivity|].
  split; [discriminate | reflexivity].
Qed.

(** C3, amended.  The first step of [main], taken before the loop is
    entered, stores [0x00] to the direction register [TRISB]: the value has
    every bit clear.  Under the convention the source relies on (a cleared
    direction bit means output) every pin of port B is then an output and
    none is an input. *)
Theorem direction_all_bits_clear :
  forall h : regfile,
    exists m,
      run 1 h = Some m
      /\ m = loop_top (regs m) (log m)
      /\ log m = [EvStore TRISB 0x00]
      /\ regs m TRISB = 0x00
      /\ no_bit (regs m TRISB)
      /\ forallb (is_output (regs m TRISB)) pins = true
      /\ existsb (is_input (regs m TRISB)) pins = false.
Proof.
  intros h. eexists. split; [reflexivity|]. cbn [regs log].
  repeat split. intros i. apply Z.testbit_0_l.
Qed.

(** C4 as worded fails on the code: halving the clock-frequency constant
    leaves every count passed to [_delay] as it was, and no two values of
    the constant give different counts. *)
Lemma delay_count_not_scaled :
  delay_counts 8000000 11 cleared = Some [100000; 100000; 100000; 100000]
  /\ delay_counts 4000000 11 cleared = Some [100000; 100000; 100000; 100000]
  /\ ~ (exists f f' : Z,
           delay_counts f 11 cleared <> delay_counts f' 11 cleared).
Proof.
  split; [reflexivity | split; [reflexivity|]].
  intros (f & f' & Hne). apply Hne. reflexivity.
Qed.

(** C4, amended.  The count passed to the busy-wait primitive is the
    literal 100000 at every call, whatever value the clock-frequency
    constant is defined as: the argument does not depend on the constant. *)
Theorem delay_count_ignores_clock :
  forall (f f' : Z) (n : nat) (h : regfile),
    delay_counts f n h = delay_counts f' n h
    /\ exists l, delay_counts f n h = Some l
                 /\ Forall (fun d => d = 100000) l.
Proof.
  intros f f' n h. split; [reflexivity|].
  change (delay_counts f n h)
    with (match run n h with Some m => Some (delays (log m)) | None => None end).
  destruct n as [|n].
  - eexists. split; [reflexivity | constructor].
  - destruct (run_cases n h) as (q & r & nd & Hr & Hrun & _).
    rewrite Hrun. eexists. split; [reflexivity|]. cbn [log].
    change (delays (EvStore TRISB 0 :: passes_events q ++ firstn r pass_events))
      with (delays (passes_events q ++ firstn r pass_events)).
    rewrite delays_app. apply Forall_app. split; [apply delays_passes|].
    pass_position r; cbn; repeat constructor.
Qed.

(** C6.  In every pass through the loop body the pin is held twice, once
    HIGH and once LOW, and both holds pass the same count, 100000, to the
    busy-wait primitive.  Whatever the cycles the primitive takes for a
    count, the time held HIGH equals the time held LOW: the high time is half
    of the two together. *)
Theorem equal_hold_counts :
  forall (k : nat) (h : regfile),
    exists (l : list event) (high_count low_count : Z),
      pass_log k h = Some l
      /\ holds l = [(HIGH, high_count); (LOW, low_count)]
      /\ high_count = low_count
      /\ high_count = 100000
      /\ forall delay_cycles : Z -> Z,
           time_at delay_cycles HIGH (holds l) = time_at delay_cycles LOW (holds l)
           /\ 2 * time_at delay_cycles HIGH (holds l)
              = time_at delay_cycles HIGH (holds l)
                + time_at delay_cycles LOW (holds l).
Proof.
  intros k h. exists pass_events, 100000, 100000.
  split; [apply pass_log_eq|].
  split; [reflexivity|]. split; [reflexivity|]. split; [reflexivity|].
  intros delay_cycles.
  change (holds pass_events) with [(HIGH, 100000); (LOW, 100000)].
  cbn [time_at level_eqb]. split; lia.
Qed.

(** C8.  The program loads from no register and stores only to [TRISB] and
    [PORTB]: every event of every run is a store to one of the two or a
    delay, and every other register keeps the value it had at power-up.  The
    log does not depend on what the registers held at power-up: two runs of
    the same length have the same log. *)
Theorem write_trace_deterministic :
  forall (n : nat) (h1 h2 : regfile),
    exists m1 m2,
      run n h1 = Some m1
      /\ run n h2 = Some m2
      /\ log m1 = log m2
      /\ forallb port_B_only (log m1) = true
      /\ forall a : Z, regs m1 (SFR a) = h1 (SFR a).
Proof.
  intros [|n] h1 h2.
  - eexists. eexists. repeat split.
  - destruct (run_shape n h1) as (nd1 & Hrun1 & _).
    destruct (run_shape n h2) as (nd2 & Hrun2 & _).
    rewrite Hrun1, Hrun2. eexists. eexists.
    split; [reflexivity|]. split; [reflexivity|]. cbn [log regs].
    split; [reflexivity|]. split.
    + cbn [forallb port_B_only andb]. rewrite forallb_app, port_B_only_passes.
      assert (Hr : (n mod 5 < 5)%nat) by (apply Nat.mod_upper_bound; discriminate).
      destruct (n mod 5)%nat as [|[|[|[|[|r]]]]]; try reflexivity; lia.
    + intros a.
      rewrite partial_regs_frame, passes_regs_frame by reflexivity. reflexivity.
Qed.

(** C9.  The configuration pragmas select the internal RC oscillator
    without clock-out, switch the watchdog timer off, the power-up timer on,
    the master-clear reset pin on, code protection off and brown-out reset
    off; the clock-frequency constant is 8000000, and each pass through the
    loop body passes the count 100000 to both of its delays. *)
Theorem configuration_constants :
  Config.oscillator_source = Some (Config.InternalRC false)
  /\ Config.enabled Config.WDTE = Some false
  /\ Config.enabled Config.PWRTE = Some true
  /\ Config.enabled Config.MCLRE = Some true
  /\ Config.enabled Config.CP = Some false
  /\ Config.enabled Config.BOREN = Some false
  /\ _XTAL_FREQ = 8000000
  /\ forall (k : nat) (h : regfile),
       exists l, pass_log k h = Some l /\ delays l = [100000; 100000].
Proof.
  repeat (split; [reflexivity|]).
  intros k h. exists pass_events. split; [apply pass_log_eq | reflexivity].
Qed.

(** Before the first store to [PORTB] the register holds whatever it held
    at power-up. *)
Example output_register_before_first_store :
  exists m, run 1 floating = Some m /\ regs m PORTB = 0xAA.
Proof. eexists. split; reflexivity. Qed.

(** C10.  Once the log holds a store to the output register [PORTB], the
    register holds [0x00] or [0x01]: bits 1 to 7 are 0, so RB0 is the only
    pin ever driven high.  Every value the program stores to [PORTB] is one
    of the two, so every store keeps this true. *)
Theorem output_register_invariant :
  forall (n : nat) (h : regfile) (m : machine),
    run n h = Some m ->
    stores_to PORTB (log m) <> [] ->
    (regs m PORTB = 0x00 \/ regs m PORTB = 0x01)
    /\ Forall (fun i => Z.testbit (regs m PORTB) i = false) [1; 2; 3; 4; 5; 6; 7]
    /\ Forall (fun v => v = 0x00 \/ v = 0x01) (stores_to PORTB (log m)).
Proof.
  intros n h m Hrun Hlog.
  assert (Hbits : forall v, v = 0x00 \/ v = 0x01 ->
                            Forall (fun i => Z.testbit v i = false) [1; 2; 3; 4; 5; 6; 7]).
  { intros v [-> | ->]; repeat constructor. }
  destruct n as [|n].
  - injection Hrun as <-. exfalso. apply Hlog. reflexivity.
  - destruct (run_cases n h) as (q & r & nd & Hr & Hrun' & _).
    rewrite Hrun' in Hrun. injection Hrun as <-. cbn [regs log] in *.
    change (stores_to PORTB (EvStore TRISB 0 :: passes_events q ++ firstn r pass_events))
      with (stores_to PORTB (passes_events q ++ firstn r pass_events)) in *.
    assert (Hval : partial_regs r (passes_regs q (store TRISB 0 h)) PORTB = 0x00
                   \/ partial_regs r (passes_regs q (store TRISB 0 h)) PORTB = 0x01).
    { pass_position r.
      - destruct q as [|q]; [exfalso; apply Hlog; reflexivity|].
        left. cbn [partial_regs]. apply passes_regs_PORTB.
      - right. reflexivity.
      - right. reflexivity.
      - left. reflexivity.
      - left. reflexivity. }
    split; [exact Hval | split; [apply Hbits, Hval|]].
    rewrite stores_to_app. apply Forall_app. split; [apply stores_to_PORTB_passes|].
    pass_position r; cbn; repeat (constructor; auto).
Qed.

(** The invariant at a concrete run: two steps from a device whose
    registers all read [0xAA]. *)
Lemma output_register_invariant_witness :
  exists m,
    run 2 floating = Some m
    /\ stores_to PORTB (log m) <> []
    /\ (regs m PORTB = 0x00 \/ regs m PORTB = 0x01).
Proof.
  eexists. split; [reflexivity|]. split; [cbn; discriminate|].
  apply (output_register_invariant 2 floating); [reflexivity | cbn; discriminate].
Defined.

(** ** Further properties of the loop *)

Lemma holds_after_TRISB (v : Z) (l : list event) :
  holds (EvStore TRISB v :: l) = holds l.
Proof. destruct l as [|[r w|r w|d] l]; reflexivity. Qed.

Lemma holds_pass (l : list event) :
  holds (pass_events ++ l) = pass_holds ++ holds l.
Proof. reflexivity. Qed.

Lemma holds_passes (k : nat) (l : list event) :
  holds (passes_events k ++ l) = passes_holds k ++ holds l.
Proof.
  induction k as [|k IH]; [reflexivity|].
  cbn [passes_events]. rewrite <- app_assoc, holds_pass, IH.
  unfold passes_holds. cbn [repeat concat]. now rewrite <- app_assoc.
Qed.

Lemma time_at_app (dc : Z -> Z) (v : level) (a b : list (level * Z)) :
  time_at dc v (a ++ b) = time_at dc v a + time_at dc v b.
Proof.
  induction a as [|[v' n] a IH]; [reflexivity|].
  cbn [app time_at]. rewrite IH. lia.
Qed.

Lemma time_at_passes (dc : Z -> Z) (v : level) (k : nat) :
  time_at dc v (passes_holds k) = Z.of_nat k * dc 100000.
Proof.
  induction k as [|k IH]; [reflexivity|].
  unfold passes_holds in *. cbn [repeat concat]. rewrite time_at_app, IH.
  destruct v; cbn [pass_holds time_at level_eqb]; lia.
Qed.

Lemma length_stores_PORTB_passes (k : nat) :
  length (stores_to PORTB (passes_events k)) = (2 * k)%nat.
Proof.
  induction k as [|k IH]; [reflexivity|].
  cbn [passes_events]. rewrite stores_to_app, length_app, IH.
  cbn [pass_events stores_to sfr_eqb length]. lia.
Qed.

Lemma length_passes_holds (k : nat) : length (passes_holds k) = (2 * k)%nat.
Proof.
  induction k as [|k IH]; [reflexivity|].
  unfold passes_holds in *. cbn [repeat concat]. rewrite length_app, IH.
  cbn [pass_holds length]. lia.
Qed.

(** The registers of port B at every step inside the loop. *)
Lemma port_B_in_loop (n : nat) (h : regfile) :
  exists m,
    run (S (S n)) h = Some m
    /\ regs m PORTB = (if high_hold (S n) then 0x01 else 0x00)
    /\ regs m TRISB = 0x00
    /\ forall a : Z, regs m (SFR a) = h (SFR a).
Proof.
  destruct (run_shape (S n) h) as (nd & Hrun & _).
  rewrite Hrun. eexists. split; [reflexivity|]. cbn [regs].
  split; [|split].
  - unfold high_hold.
    assert (Hr : (S n mod 5 < 5)%nat) by (apply Nat.mod_upper_bound; discriminate).
    assert (Hn : S n = (5 * (S n / 5) + S n mod 5)%nat) by apply Nat.div_mod_eq.
    destruct (S n mod 5)%nat as [|[|[|[|[|r]]]]]; try reflexivity.
    destruct (S n / 5)%nat as [|q]; [lia|].
    cbn [partial_regs]. apply passes_regs_PORTB.
  - rewrite partial_regs_frame, passes_regs_frame by reflexivity. reflexivity.
  - intros a.
    rewrite partial_regs_frame, passes_regs_frame by reflexivity. reflexivity.
Qed.

(** The log at every step after the first. *)
Lemma log_in_loop (n : nat) (h : regfile) (m : machine) :
  run (S n) h = Some m ->
  log m = EvStore TRISB 0 :: passes_events (n / 5) ++ firstn (n mod 5) pass_events.
Proof.
  intros Hrun. destruct (run_shape n h) as (nd & Hs & _).
  rewrite Hs in Hrun. injection Hrun as <-. reflexivity.
Qed.

Lemma high_hold_period (n : nat) : high_hold (n + 5) = high_hold n.
Proof.
  unfold high_hold.
  replace (n + 5)%nat with (n + 1 * 5)%nat by lia.
  now rewrite Nat.Div0.mod_add.
Qed.

(** At every step inside the loop the output register holds [0x01] exactly
    while the machine stands between the store of [0x01] and the store of
    [0x00] of the current pass (steps 1 and 2 of the five of a pass), and
    [0x00] at every other step: RB0 is HIGH in the first case and LOW in the
    second, whatever the registers held at power-up. *)
Theorem pin_follows_pass_position :
  forall (n : nat) (h : regfile),
    exists m,
      run (2 + n) h = Some m
      /\ regs m PORTB = (if high_hold (1 + n) then 0x01 else 0x00)
      /\ pin_level (regs m PORTB) = (if high_hold (1 + n) then HIGH else LOW).
Proof.
  intros n h. destruct (port_B_in_loop n h) as (m & Hrun & Hport & _).
  exists m. split; [exact Hrun|]. split; [exact Hport|].
  cbn [Nat.add]. rewrite Hport. now destruct (high_hold (S n)).
Qed.

(** One pass later (five steps on) every register holds what it holds now,
    from the second step of the run on; the log has gained four events in
    between: two stores to [PORTB], two delays of 100000, and no store to
    [TRISB]. *)
Theorem state_repeats_every_pass :
  forall (n : nat) (h : regfile),
    exists (m m' : machine) (gained : list event),
      run (2 + n) h = Some m
      /\ run (2 + n + 5) h = Some m'
      /\ (forall r : sfr, regs m' r = regs m r)
      /\ log m' = log m ++ gained
      /\ length gained = 4%nat
      /\ length (stores_to PORTB gained) = 2%nat
      /\ delays gained = [100000; 100000]
      /\ stores_to TRISB gained = [].
Proof.
  intros n h. cbn [Nat.add].
  destruct (port_B_in_loop n h) as (m & Hrun & Hport & Htris & Hsfr).
  destruct (port_B_in_loop (n + 5) h) as (m' & Hrun' & Hport' & Htris' & Hsfr').
  exists m, m', (skipn (S n mod 5) pass_events ++ firstn (S n mod 5) pass_events).
  split; [exact Hrun|]. split; [exact Hrun'|]. split.
  { intros [| |a].
    - now rewrite Htris, Htris'.
    - rewrite Hport, Hport'.
      change (S (n + 5)) with (S n + 5)%nat. now rewrite high_hold_period.
    - now rewrite Hsfr, Hsfr'. }
  assert (Hr : (S n mod 5 < 5)%nat) by (apply Nat.mod_upper_bound; discriminate).
  pose proof (log_in_loop _ _ _ Hrun) as Hlog.
  pose proof (log_in_loop _ _ _ Hrun') as Hlog'.
  replace (S (n + 5)) with (S n + 1 * 5)%nat in Hlog' by lia.
  rewrite Nat.div_add, Nat.Div0.mod_add in Hlog' by discriminate.
  set (k := S n) in *.
  rewrite Hlog, Hlog'. clear Hlog Hlog'. clearbody k.
  rewrite Nat.add_1_r, passes_events_snoc.
  split.
  - cbn [app]. f_equal. rewrite <- !app_assoc. f_equal.
    rewrite (app_assoc (firstn _ _)), firstn_skipn. reflexivity.
  - destruct (k mod 5)%nat as [|[|[|[|[|r]]]]]; [| | | | |lia];
      repeat split.
Qed.

(** Every level driven on RB0 is held: after [k] passes the holds are [k]
    times HIGH for 100000 then LOW for 100000, one hold per store to
    [PORTB]; at any step of any run at most the latest store to [PORTB] is
    still waiting for its delay. *)
Theorem every_level_is_held :
  (forall (k : nat) (h : regfile),
      exists m,
        after_passes k h = Some m
        /\ holds (log m) = passes_holds k
        /\ length (holds (log m)) = length (stores_to PORTB (log m)))
  /\ (forall (n : nat) (h : regfile),
         exists m,
           run n h = Some m
           /\ (length (holds (log m)) <= length (stores_to PORTB (log m)))%nat
           /\ (length (stores_to PORTB (log m)) <= S (length (holds (log m))))%nat).
Proof.
  split.
  - intros k h. rewrite after_passes_eq. eexists. split; [reflexivity|].
    cbn [log loop_top]. rewrite holds_after_TRISB.
    change (stores_to PORTB (EvStore TRISB 0 :: passes_events k))
      with (stores_to PORTB (passes_events k)).
    rewrite <- (app_nil_r (passes_events k)) at 1 2.
    rewrite holds_passes, app_nil_r.
    split; [reflexivity|].
    now rewrite length_passes_holds, length_stores_PORTB_passes.
  - intros [|n] h.
    + eexists. split; [reflexivity|]. cbn. lia.
    + destruct (run_cases n h) as (q & r & nd & Hr & Hrun & _).
      rewrite Hrun. eexists. split; [reflexivity|]. cbn [log].
      rewrite holds_after_TRISB, holds_passes.
      change (stores_to PORTB (EvStore TRISB 0 :: passes_events q ++ firstn r pass_events))
        with (stores_to PORTB (passes_events q ++ firstn r pass_events)).
      rewrite stores_to_app, !length_app, length_passes_holds,
        length_stores_PORTB_passes.
      pass_position r; cbn; lia.
Qed.

(** Whatever the cycles the primitive takes for a count, after [k] passes
    RB0 has been held HIGH for [k] delays of 100000 and LOW for as many; at
    any step of any run the time held HIGH is the time held LOW or exceeds
    it by one delay of 100000. *)
Theorem high_and_low_time_balance :
  forall delay_cycles : Z -> Z,
    (forall (k : nat) (h : regfile),
        exists m,
          after_passes k h = Some m
          /\ time_at delay_cycles HIGH (holds (log m))
             = Z.of_nat k * delay_cycles 100000
          /\ time_at delay_cycles LOW (holds (log m))
             = Z.of_nat k * delay_cycles 100000)
    /\ (forall (n : nat) (h : regfile),
           exists m,
             run n h = Some m
             /\ (time_at delay_cycles HIGH (holds (log m))
                 = time_at delay_cycles LOW (holds (log m))
                 \/ time_at delay_cycles HIGH (holds (log m))
                    = time_at delay_cycles LOW (holds (log m))
                      + delay_cycles 100000)).
Proof.
  intros dc. split.
  - intros k h. rewrite after_passes_eq. eexists. split; [reflexivity|].
    cbn [log loop_top]. rewrite holds_after_TRISB.
    rewrite <- (app_nil_r (passes_events k)), holds_passes, app_nil_r.
    now rewrite !time_at_passes.
  - intros [|n] h.
    + eexists. split; [reflexivity|]. left. reflexivity.
    + destruct (run_cases n h) as (q & r & nd & Hr & Hrun & _).
      rewrite Hrun. eexists. split; [reflexivity|]. cbn [log].
      rewrite holds_after_TRISB, holds_passes, !time_at_app, !time_at_passes.
      pass_position r; cbn [firstn pass_events holds sfr_eqb pin_level RB0
                              Z.testbit Z.odd time_at level_eqb]; lia.
Qed.

(** At the first step the output register still holds its power-up value. *)
Example output_register_depends_on_power_up_at_first :
  exists m1 m2,
    run 1 cleared = Some m1 /\ run 1 floating = Some m2
    /\ regs m1 PORTB <> regs m2 PORTB.
Proof. eexists. eexists. split; [reflexivity|]. split; [reflexivity | discriminate]. Qed.

(** From the second step of the run on, the registers of port B do not
    depend on what the registers held at power-up: two runs of the same
    length end with the same [TRISB] and the same [PORTB]. *)
Theorem port_B_forgets_power_up :
  forall (n : nat) (h1 h2 : regfile),
    exists m1 m2,
      run (2 + n) h1 = Some m1
      /\ run (2 + n) h2 = Some m2
      /\ regs m1 TRISB = regs m2 TRISB
      /\ regs m1 PORTB = regs m2 PORTB.
Proof.
  intros n h1 h2.
  destruct (port_B_in_loop n h1) as (m1 & Hrun1 & Hport1 & Htris1 & _).
  destruct (port_B_in_loop n h2) as (m2 & Hrun2 & Hport2 & Htris2 & _).
  exists m1, m2. split; [exact Hrun1|]. split; [exact Hrun2|].
  split; congruence.
Qed.
